(** * Langflow middleware: the body size guard and the origin gate

    A shallow embedding of [src/backend/base/langflow/middleware.py]:

    - [ContentSizeLimitMiddleware] wraps the ASGI [receive] channel of a
      request, counts the body bytes it has seen and raises
      [MaxFileSizeException] (status 413) once the configured ceiling is
      exceeded;
    - [OriginValidationMiddleware] checks the [Origin]/[Referer] header of a
      request against an allow-list before it hands the request on.

    Python strings are modelled as [string]: a sequence of characters, one
    [ascii] per character (header values reach the code decoded as latin-1,
    one character per byte).  Python integers are [Z]. *)

From Stdlib Require Import ZArith List String Ascii Bool Lia DecimalString.
Import ListNotations.

#[local] Open Scope string_scope.
#[local] Open Scope Z_scope.

(** ** Python primitives used by the middleware *)

Module Py.

(** [str(n)] for an [int]: what an f-string prints for [{n}]. *)
Definition str_int (n : Z) : string := NilZero.string_of_int (Z.to_int n).

(** [s.startswith(p)]. *)
Definition startswith (s p : string) : bool := String.prefix p s.

(** Truthiness of a [str]: only the empty string is falsy. *)
Definition truthy (s : string) : bool :=
  match s with
  | EmptyString => false
  | String _ _ => true
  end.

(** [a or b] where [a] is an [Optional[str]] and [b] a [str]: [b] is taken
    when [a] is [None] and also when [a] is the empty string. *)
Definition or_else (a : option string) (b : string) : string :=
  match a with
  | Some s => if truthy s then s else b
  | None => b
  end.

(** [any(f(x) for x in l)]. *)
Definition any {A : Type} (f : A -> bool) (l : list A) : bool := existsb f l.

(** Rounding of the rational [n / d] ([0 < d]) to the nearest integer,
    ties going to the even neighbour. *)
Definition round_half_even (n d : Z) : Z :=
  let q := n / d in
  let r := n mod d in
  if 2 * r <? d then q
  else if d <? 2 * r then q + 1
  else if Z.even q then q else q + 1.

(** [round(received / (1024 * 1024), 3)], given as a whole number of
    thousandths.  The division by [2^20] is exact in binary floating point
    for [received < 2^53], and CPython's [round] of a float to [ndigits]
    places is correctly rounded on the exact binary value, ties to even;
    the float it returns is the one nearest to [thousandths / 1000]. *)
Definition round3_mb (received : Z) : Z :=
  round_half_even (received * 1000) (1024 * 1024).

Definition digit (d : Z) : string :=
  String (ascii_of_nat (48 + Z.to_nat d)) EmptyString.

(** [str(x)] for the float nearest to [t / 1000], [0 <= t]: the shortest
    decimal that reads back as the same float, which for a value below
    [10^16] with at most three decimals is that decimal itself, printed
    without trailing zeros and with at least one digit after the point. *)
Definition str_milli (t : Z) : string :=
  let r := t mod 1000 in
  let d1 := r / 100 in
  let d2 := (r / 10) mod 10 in
  let d3 := r mod 10 in
  str_int (t / 1000) ++ "." ++
    (if d3 =? 0
     then if d2 =? 0 then digit d1 else digit d1 ++ digit d2
     else digit d1 ++ digit d2 ++ digit d3).

End Py.

(** ** The body size guard: [ContentSizeLimitMiddleware] *)

(** An ASGI event as [receive()] delivers it: its ["type"], its ["body"] when
    the key is there, and its ["more_body"] flag. *)
Record Message := mkMessage {
  msg_type : string;
  body : option (list Byte.byte);
  more_body : bool
}.

(** [HTTPException(status_code, detail)]. *)
Record HTTPException := mkHTTPException {
  status_code : Z;
  detail : string
}.

(** [class MaxFileSizeException(HTTPException)]: its constructor fixes the
    status code to 413. *)
Definition MaxFileSizeException (detail : string) : HTTPException :=
  {| status_code := 413; detail := detail |}.

(** How one call of the wrapped [receive] ends. *)
Inductive Result :=
| Return (message : Message)
| Raise (exn : HTTPException).

(** What one call of [inner] can see and change: the value that
    [get_settings_service().settings.max_file_size_upload] holds at that
    moment ([None] for no limit, otherwise megabytes), and the closure
    variable [received]. *)
Record World := mkWorld {
  max_file_size_upload : option Z;
  received : Z
}.

Definition set_received (w : World) (n : Z) : World :=
  {| max_file_size_upload := max_file_size_upload w; received := n |}.

Definition set_max_file_size_upload (w : World) (v : option Z) : World :=
  {| max_file_size_upload := v; received := received w |}.

(** [len(message.get("body", b))] with [b] the empty bytes: the length of
    the body, 0 when the key is missing. *)
Definition body_len (message : Message) : Z :=
  match body message with
  | Some b => Z.of_nat (List.length b)
  | None => 0
  end.

Definition is_http_request (message : Message) : bool :=
  (msg_type message =? "http.request")%string.

(** The text of the 413 error. *)
Definition size_limit_msg (max_file_size_upload received : Z) : string :=
  "Content size limit exceeded. Maximum allowed is "
    ++ Py.str_int max_file_size_upload ++ "MB"
    ++ " and got " ++ Py.str_milli (Py.round3_mb received) ++ "MB.".

(** [receive_wrapper.inner], with [message] the event that
    [await receive()] delivered.  The setting is read first, on every call. *)
Definition inner (w : World) (message : Message) : World * Result :=
  match is_http_request message, max_file_size_upload w with
  | true, Some limit =>
      let received' := received w + body_len message in
      let w' := set_received w received' in
      if limit * 1024 * 1024 <? received'
      then (w', Raise (MaxFileSizeException (size_limit_msg limit received')))
      else (w', Return message)
  | _, _ => (w, Return message)
  end.

(** [receive_wrapper(receive)]: a fresh closure whose counter starts at 0. *)
Definition receive_wrapper (setting : option Z) : World :=
  {| max_file_size_upload := setting; received := 0 |}.

(** What happens around the wrapper while one request is served: the
    application awaits the wrapped [receive] and gets the next event of the
    channel, or the settings service is given a new value between two such
    calls. *)
Inductive Event :=
| Receive (message : Message)
| Reconfigure (setting : option Z).

(** The record of serving a request: the events the application was handed,
    in order; the exception that ended the request, if any; the events that
    were never read; and the world at the end. *)
Record Trace := mkTrace {
  forwarded : list Message;
  error : option HTTPException;
  unread : list Event;
  final : World
}.

(** [t], with the events [ms] handed to the application before it. *)
Definition prepend (ms : list Message) (t : Trace) : Trace :=
  {| forwarded := (ms ++ forwarded t)%list;
     error := error t;
     unread := unread t;
     final := final t |}.

Definition forward (message : Message) (t : Trace) : Trace :=
  prepend [message] t.

(** The application reads the wrapped channel event after event.  An
    exception raised by [inner] propagates out of the application's
    [await receive()], which ends the request there. *)
Fixpoint run (w : World) (events : list Event) : Trace :=
  match events with
  | [] => {| forwarded := []; error := None; unread := []; final := w |}
  | Reconfigure v :: rest => run (set_max_file_size_upload w v) rest
  | Receive message :: rest =>
      match inner w message with
      | (w', Return message') => forward message' (run w' rest)
      | (w', Raise exn) =>
          {| forwarded := []; error := Some exn; unread := rest; final := w' |}
      end
  end.

(** The messages of a channel, without the reconfigurations. *)
Fixpoint messages (events : list Event) : list Message :=
  match events with
  | [] => []
  | Receive message :: rest => message :: messages rest
  | Reconfigure _ :: rest => messages rest
  end.

(** The world after the reconfigurations of a channel, nothing counted. *)
Fixpoint reconfigured (w : World) (events : list Event) : World :=
  match events with
  | [] => w
  | Receive _ :: rest => reconfigured w rest
  | Reconfigure v :: rest => reconfigured (set_max_file_size_upload w v) rest
  end.

(** [ContentSizeLimitMiddleware.__call__]: a scope that is not ["http"] gets
    the bare [receive]; an ["http"] scope gets a fresh wrapper. *)
Definition call (scope_type : string) (setting : option Z)
    (events : list Event) : Trace :=
  if negb (scope_type =? "http")%string
  then {| forwarded := messages events;
          error := None;
          unread := [];
          final := reconfigured (receive_wrapper setting) events |}
  else run (receive_wrapper setting) events.

(** The cumulative byte length of a sequence of chunks. *)
Fixpoint cumulative (chunks : list Message) : Z :=
  match chunks with
  | [] => 0
  | m :: rest => body_len m + cumulative rest
  end.

Definition MB : Z := 1024 * 1024.

(** The setting a call of [inner] reads after the events [events], when the
    request started under [setting]: the value of the last reconfiguration. *)
Fixpoint current_setting (setting : option Z) (events : list Event)
    : option Z :=
  match events with
  | [] => setting
  | Receive _ :: rest => current_setting setting rest
  | Reconfigure v :: rest => current_setting v rest
  end.

(** The bytes of the [http.request] events of [events] that are read while
    the setting is a number. *)
Fixpoint counted (setting : option Z) (events : list Event) : Z :=
  match events with
  | [] => 0
  | Reconfigure v :: rest => counted v rest
  | Receive m :: rest =>
      (match setting with
       | Some _ => if is_http_request m then body_len m else 0
       | None => 0
       end) + counted setting rest
  end.

(** A body chunk of [n] zero bytes, with more to come. *)
Definition chunk (n : nat) : Message :=
  {| msg_type := "http.request";
     body := Some (repeat Byte.x00 n);
     more_body := true |}.

(** Smaller chunks: one without the ["body"] key, one of 3 bytes. *)
Definition bare : Message :=
  {| msg_type := "http.request"; body := None; more_body := true |}.

Definition small : Message := chunk 3.

(** A chunk of 400 KB. *)
Definition KB400 : Message := chunk (400 * 1024).

(** ** The origin gate: [OriginValidationMiddleware] *)

Module Str.

(** [c.isspace()] for a character below 256: what [str.strip()] removes. *)
Definition isspace (c : ascii) : bool :=
  let n := nat_of_ascii c in
  ((9 <=? n) && (n <=? 13) || (28 <=? n) && (n <=? 32)
   || (n =? 133) || (n =? 160))%nat.

Fixpoint lstrip (s : string) : string :=
  match s with
  | EmptyString => EmptyString
  | String c rest => if isspace c then lstrip rest else s
  end.

Fixpoint rstrip (s : string) : string :=
  match s with
  | EmptyString => EmptyString
  | String c rest =>
      match rstrip rest with
      | EmptyString => if isspace c then EmptyString else String c EmptyString
      | kept => String c kept
      end
  end.

(** [s.strip()]. *)
Definition strip (s : string) : string := rstrip (lstrip s).

(** [s.split(",")]: never empty, one empty piece for the empty string. *)
Fixpoint split_comma (s : string) : list string :=
  match s with
  | EmptyString => [EmptyString]
  | String c rest =>
      if Ascii.eqb c ","%char then EmptyString :: split_comma rest
      else match split_comma rest with
           | first :: others => String c first :: others
           | [] => [String c EmptyString]
           end
  end.

End Str.

(** What the gate reads of a [Request]: [request.url.path] and the headers
    in the order of the ASGI scope, names in lower case. *)
Record Request := mkRequest {
  path : string;
  headers : list (string * string)
}.

(** [request.headers.get(key)]: the value of the first header of that name,
    [None] when there is none. *)
Fixpoint headers_get (key : string) (hs : list (string * string))
    : option string :=
  match hs with
  | [] => None
  | (name, value) :: rest =>
      if (name =? key)%string then Some value else headers_get key rest
  end.

(** [request.headers.get(key, default)]. *)
Definition headers_get_default (key default : string)
    (hs : list (string * string)) : string :=
  match headers_get key hs with
  | Some value => value
  | None => default
  end.

(** The two fields [__init__] sets on the middleware. *)
Record OriginValidationMiddleware := mkOriginValidationMiddleware {
  allowed_origins : list string;
  bypass_paths : list string
}.

(** [OriginValidationMiddleware.__init__], given what
    [os.getenv("ALLOWED_ORIGINS")] finds ([None] when the variable is not
    set).  Its two start-up log lines are left out. *)
Definition init (env : option string) : OriginValidationMiddleware :=
  let allowed_origins_env :=
    match env with Some v => v | None => EmptyString end in
  {| allowed_origins :=
       filter Py.truthy (map Str.strip (Str.split_comma allowed_origins_env));
     bypass_paths := ["/health"; "/docs"; "/openapi.json"] |}.

(** [self._is_origin_allowed(origin)]. *)
Definition _is_origin_allowed (self : OriginValidationMiddleware)
    (origin : string) : bool :=
  if negb (Py.truthy origin) then false
  else Py.any (fun allowed => Py.startswith origin allowed)
         (allowed_origins self).

(** What [dispatch] does besides returning a response. *)
Inductive Effect :=
| CallNext (request : Request)
| LogWarning (text : string).

(** A computation that returns a value and leaves its effects, in order. *)
Definition Action (A : Type) : Type := (A * list Effect)%type.

Definition ret {A : Type} (a : A) : Action A := (a, []).

Definition bind {A B : Type} (m : Action A) (k : A -> Action B) : Action B :=
  let (a, done) := m in
  let (b, more) := k a in
  (b, (done ++ more)%list).

Notation "m ;; k" := (bind m (fun _ => k))
  (at level 61, right associativity).

(** [logger.warning(text)]. *)
Definition logger_warning (text : string) : Action unit :=
  (tt, [LogWarning text]).

(** [origin = request.headers.get("origin") or
              request.headers.get("referer", default)], the default being
    the empty string. *)
Definition request_origin (request : Request) : string :=
  Py.or_else (headers_get "origin" (headers request))
    (headers_get_default "referer" EmptyString (headers request)).

(** The text of the warning: the literal's sign is written in UTF-8. *)
Definition blocked_msg (origin : string) : string :=
  "🚫 Blocked direct access from: "
    ++ Py.or_else (Some origin) "unknown origin".

Section Dispatch.

(** The framework's response type, its [JSONResponse(status_code, content)]
    with [content] a dictionary of strings, and the next handler. *)
Variable Response : Type.
Variable JSONResponse : Z -> list (string * string) -> Response.
Variable call_next : Request -> Response.

(** [await call_next(request)]. *)
Definition await_call_next (request : Request) : Action Response :=
  (call_next request, [CallNext request]).

(** [OriginValidationMiddleware.dispatch]. *)
Definition dispatch (self : OriginValidationMiddleware) (request : Request)
    : Action Response :=
  match allowed_origins self with
  | [] => await_call_next request
  | _ :: _ =>
      if Py.any (fun p => Py.startswith (path request) p) (bypass_paths self)
      then await_call_next request
      else
        let origin := request_origin request in
        if negb (_is_origin_allowed self origin)
        then
          logger_warning (blocked_msg origin) ;;
          ret (JSONResponse 401 [("detail", "Direct access not allowed")])
        else await_call_next request
  end.

End Dispatch.

Arguments await_call_next {Response} call_next request.
Arguments dispatch {Response} JSONResponse call_next self request.

(** The origin value as the specification words it: the [Origin] header
    when it is present, else the [Referer] header, else the empty string. *)
Definition spec_request_origin (request : Request) : string :=
  match headers_get "origin" (headers request) with
  | Some value => value
  | None => headers_get_default "referer" EmptyString (headers request)
  end.

(** A stand-in for the framework and the next handler, to run [dispatch] on
    examples: a response is its status code and its content, and the next
    handler answers 200 with the path it was asked for. *)
Definition plain_json (status_code : Z) (content : list (string * string))
    : Z * list (string * string) :=
  (status_code, content).

Definition echo_next (request : Request) : Z * list (string * string) :=
  (200, [("path", path request)]).

Definition example_gate : OriginValidationMiddleware :=
  init (Some "https://example.com").

(** A request that carries an [Origin] header with no value and a
    [Referer] header. *)
Definition empty_origin_request : Request :=
  {| path := "/api/x";
     headers := [("origin", EmptyString);
                 ("referer", "https://example.com/app")] |}.

(** ** Helpers to state what [__init__] makes of [ALLOWED_ORIGINS] *)

(** [all(p(c) for c in s)]. *)
Fixpoint all_chars (p : ascii -> bool) (s : string) : bool :=
  match s with
  | EmptyString => true
  | String c rest => p c && all_chars p rest
  end.

Definition is_comma (c : ascii) : bool := Ascii.eqb c ","%char.

(** No comma in [s]. *)
Definition comma_free (s : string) : bool :=
  all_chars (fun c => negb (is_comma c)) s.

(** Nothing but white space in [s]. *)
Definition blank (s : string) : bool := all_chars Str.isspace s.

Definition comma_or_space (c : ascii) : bool := is_comma c || Str.isspace c.

(** [",".join(pieces)]: the text of a variable that lists [pieces]. *)
Fixpoint join_comma (pieces : list string) : string :=
  match pieces with
  | [] => EmptyString
  | piece :: rest =>
      match rest with
      | [] => piece
      | _ :: _ => piece ++ String ","%char (join_comma rest)
      end
  end.

(** An entry as it may be written in the variable: white space, the entry,
    white space. *)
Record Padded := mkPadded {
  pad_left : string;
  entry : string;
  pad_right : string
}.

Definition padded_text (p : Padded) : string :=
  pad_left p ++ entry p ++ pad_right p.

(** The bytes of the [http.request] events among [ms]. *)
Fixpoint body_bytes (ms : list Message) : Z :=
  match ms with
  | [] => 0
  | m :: rest =>
      (if is_http_request m then body_len m else 0) + body_bytes rest
  end.

(** * Properties of the body size guard *)

Section GuardLemmas.

Lemma body_len_nonneg (m : Message) : 0 <= body_len m.
Proof. unfold body_len. destruct (body m); lia. Qed.

Lemma cumulative_nonneg (ms : list Message) : 0 <= cumulative ms.
Proof.
  induction ms as [|m ms IH]; simpl; [lia|].
  pose proof (body_len_nonneg m). lia.
Qed.

Lemma cumulative_app (xs ys : list Message) :
  cumulative (xs ++ ys) = cumulative xs + cumulative ys.
Proof. induction xs as [|x xs IH]; simpl; lia. Qed.

(** The early return of [inner]. *)
Lemma inner_pass (w : World) (m : Message) :
  is_http_request m = false \/ max_file_size_upload w = None ->
  inner w m = (w, Return m).
Proof.
  unfold inner. intros [H | H]; rewrite H; [reflexivity|].
  destruct (is_http_request m); reflexivity.
Qed.

(** The counting branch of [inner], below and above the ceiling. *)
Lemma inner_within (w : World) (limit : Z) (m : Message) :
  is_http_request m = true ->
  max_file_size_upload w = Some limit ->
  received w + body_len m <= limit * MB ->
  inner w m = (set_received w (received w + body_len m), Return m).
Proof.
  unfold inner, MB. intros -> -> Hle.
  destruct (Z.ltb_spec (limit * 1024 * 1024) (received w + body_len m));
    [lia | reflexivity].
Qed.

Lemma inner_exceeds (w : World) (limit : Z) (m : Message) :
  is_http_request m = true ->
  max_file_size_upload w = Some limit ->
  limit * MB < received w + body_len m ->
  inner w m =
    (set_received w (received w + body_len m),
     Raise (MaxFileSizeException
              (size_limit_msg limit (received w + body_len m)))).
Proof.
  unfold inner, MB. intros -> -> Hlt.
  destruct (Z.ltb_spec (limit * 1024 * 1024) (received w + body_len m));
    [reflexivity | lia].
Qed.

Lemma prepend_nil (t : Trace) : prepend [] t = t.
Proof. destruct t; reflexivity. Qed.

Lemma prepend_app (xs ys : list Message) (t : Trace) :
  prepend (xs ++ ys) t = prepend xs (prepend ys t).
Proof. unfold prepend; simpl. now rewrite app_assoc. Qed.

Lemma run_receive_return (w w' : World) (m m' : Message) (rest : list Event) :
  inner w m = (w', Return m') ->
  run w (Receive m :: rest) = prepend [m'] (run w' rest).
Proof. simpl. now intros ->. Qed.

Lemma run_receive_raise (w w' : World) (m : Message) (e : HTTPException)
    (rest : list Event) :
  inner w m = (w', Raise e) ->
  run w (Receive m :: rest) =
    {| forwarded := []; error := Some e; unread := rest; final := w' |}.
Proof. simpl. now intros ->. Qed.

(** A run that ends without an exception goes on with the next events. *)
Lemma run_app (w : World) (pre post : list Event) :
  error (run w pre) = None ->
  run w (pre ++ post) =
    prepend (forwarded (run w pre)) (run (final (run w pre)) post).
Proof.
  revert w. induction pre as [|e pre IH]; intros w Hok.
  - simpl. now rewrite prepend_nil.
  - destruct e as [m | v].
    + simpl in *. destruct (inner w m) as [w' [m' | exn]].
      * simpl in Hok. rewrite (IH w' Hok). unfold forward.
        now rewrite <- prepend_app.
      * discriminate.
    + simpl in *. now apply IH.
Qed.

(** [inner] reads the setting and never writes it. *)
Lemma inner_setting (w : World) (m : Message) :
  max_file_size_upload (fst (inner w m)) = max_file_size_upload w.
Proof.
  unfold inner.
  destruct (is_http_request m), (max_file_size_upload w) as [limit|] eqn:E;
    try (simpl; congruence).
  destruct (limit * 1024 * 1024 <? received w + body_len m);
    simpl; congruence.
Qed.

Lemma run_setting (w : World) (events : list Event) :
  error (run w events) = None ->
  max_file_size_upload (final (run w events)) =
    current_setting (max_file_size_upload w) events.
Proof.
  revert w. induction events as [|e events IH]; intros w Hok; [reflexivity|].
  destruct e as [m | v].
  - simpl in *. pose proof (inner_setting w m) as Hs.
    destruct (inner w m) as [w' [m' | exn]]; [|discriminate].
    simpl in *. now rewrite (IH w' Hok), Hs.
  - simpl in *. now rewrite (IH _ Hok).
Qed.

(** Below the ceiling every chunk is handed on and counted. *)
Lemma run_within (limit : Z) (ms : list Message) :
  forall w : World,
    max_file_size_upload w = Some limit ->
    Forall (fun m => is_http_request m = true) ms ->
    received w + cumulative ms <= limit * MB ->
    run w (map Receive ms) =
      {| forwarded := ms;
         error := None;
         unread := [];
         final := set_received w (received w + cumulative ms) |}.
Proof.
  induction ms as [|m ms IH]; intros w Hmax Hall Hle.
  - simpl. destruct w; unfold set_received; simpl. now rewrite Z.add_0_r.
  - inversion Hall as [|? ? Hm Hms]; subst. simpl in Hle.
    pose proof (body_len_nonneg m). pose proof (cumulative_nonneg ms).
    change (map Receive (m :: ms)) with (Receive m :: map Receive ms).
    rewrite (run_receive_return _ _ _ _ _
               (inner_within w limit m Hm Hmax ltac:(lia))).
    rewrite IH; simpl; try assumption; try lia.
    unfold prepend, set_received; simpl. do 2 f_equal. lia.
Qed.

(** With no limit configured nothing is counted and nothing raised. *)
Lemma run_unlimited (ms : list Message) (r : Z) :
  run {| max_file_size_upload := None; received := r |} (map Receive ms) =
    {| forwarded := ms;
       error := None;
       unread := [];
       final := {| max_file_size_upload := None; received := r |} |}.
Proof.
  induction ms as [|m ms IH]; [reflexivity|].
  change (map Receive (m :: ms)) with (Receive m :: map Receive ms).
  rewrite (run_receive_return _ _ _ _ _
             (inner_pass (mkWorld None r) m (or_intror eq_refl))).
  now rewrite IH.
Qed.

End GuardLemmas.

Section GuardRuns.

Lemma cumulative_snoc (pre : list Message) (m : Message) :
  cumulative (pre ++ [m]) = cumulative pre + body_len m.
Proof. rewrite cumulative_app. simpl. lia. Qed.

(** Once the chunks outgrow the ceiling, the run stops at the first chunk
    that takes the counter over it. *)
Lemma run_exceeds (limit : Z) (ms : list Message) :
  forall w : World,
    max_file_size_upload w = Some limit ->
    Forall (fun m => is_http_request m = true) ms ->
    ms <> [] ->
    limit * MB < received w + cumulative ms ->
    exists (pre : list Message) (m : Message) (post : list Message),
      ms = (pre ++ m :: post)%list
      /\ (forall j : nat,
            (j < List.length pre)%nat ->
            received w + cumulative (firstn (S j) ms) <= limit * MB)
      /\ limit * MB < received w + cumulative (pre ++ [m])
      /\ run w (map Receive ms) =
           {| forwarded := pre;
              error :=
                Some {| status_code := 413;
                        detail :=
                          size_limit_msg limit
                            (received w + cumulative (pre ++ [m])) |};
              unread := map Receive post;
              final :=
                set_received w (received w + cumulative (pre ++ [m])) |}.
Proof.
  induction ms as [|m ms IH]; intros w Hmax Hall Hne Hlt; [congruence|].
  inversion Hall as [|? ? Hm Hms]; subst. simpl in Hlt.
  change (map Receive (m :: ms)) with (Receive m :: map Receive ms).
  destruct (Z.ltb_spec (limit * MB) (received w + body_len m)) as [Hover | Hin].
  - exists [], m, ms.
    split; [reflexivity|].
    split; [intros j Hj; inversion Hj|].
    split; [simpl; lia|].
    rewrite (run_receive_raise _ _ _ _ _
               (inner_exceeds w limit m Hm Hmax Hover)).
    simpl. now rewrite Z.add_0_r.
  - assert (Hne' : ms <> []) by (intros ->; simpl in Hlt; lia).
    set (w' := set_received w (received w + body_len m)).
    destruct (IH w' Hmax Hms Hne' ltac:(simpl; lia))
      as (pre & m' & post & Heq & Hfirst & Hex & Hrun).
    exists (m :: pre), m', post. simpl in Hex, Hfirst.
    split; [simpl; now rewrite Heq|].
    split.
    { intros [|j] Hj.
      - simpl. lia.
      - change (firstn (S (S j)) (m :: ms)) with (m :: firstn (S j) ms).
        simpl in Hj. simpl.
        specialize (Hfirst j ltac:(lia)). lia. }
    split; [simpl; lia|].
    rewrite (run_receive_return _ _ _ _ _
               (inner_within w limit m Hm Hmax Hin)).
    fold w'. rewrite Hrun. unfold prepend, set_received. simpl.
    replace (received w + (body_len m + cumulative (pre ++ [m'])))
      with (received w + body_len m + cumulative (pre ++ [m'])) by lia.
    reflexivity.
Qed.

(** With a limit of zero or more, chunks that exceed it are at least one. *)
Lemma excess_nonempty (limit : Z) (ms : list Message) :
  0 <= limit -> limit * MB < cumulative ms -> ms <> [].
Proof. intros Hl Hlt ->. simpl in Hlt. unfold MB in Hlt. lia. Qed.

(** The counter moves by what the processed events count for. *)
Lemma run_counted (events : list Event) :
  forall w : World,
    exists processed : list Event,
      events = (processed ++ unread (run w events))%list
      /\ received (final (run w events)) =
           received w + counted (max_file_size_upload w) processed.
Proof.
  induction events as [|e events IH]; intros w.
  - exists []. simpl. split; [reflexivity | lia].
  - destruct e as [m | v].
    + simpl. unfold inner.
      destruct (is_http_request m) eqn:Hm,
               (max_file_size_upload w) as [limit|] eqn:Hmax.
      * destruct (limit * 1024 * 1024 <? received w + body_len m).
        -- exists [Receive m]. simpl. rewrite Hm. split; [reflexivity | lia].
        -- destruct (IH (set_received w (received w + body_len m)))
             as (processed & Heq & Hrec).
           exists (Receive m :: processed). simpl in *.
           rewrite Hm, Hmax in *. split; [now rewrite <- Heq | lia].
      * destruct (IH w) as (processed & Heq & Hrec).
        exists (Receive m :: processed). simpl.
        rewrite Hmax in Hrec. split; [now rewrite <- Heq | lia].
      * destruct (IH w) as (processed & Heq & Hrec).
        exists (Receive m :: processed). simpl.
        rewrite Hm, Hmax in *. split; [now rewrite <- Heq | lia].
      * destruct (IH w) as (processed & Heq & Hrec).
        exists (Receive m :: processed). simpl.
        rewrite Hmax in Hrec. split; [now rewrite <- Heq | lia].
    + destruct (IH (set_max_file_size_upload w v))
        as (processed & Heq & Hrec).
      exists (Reconfigure v :: processed). simpl in *.
      split; [now rewrite <- Heq | assumption].
Qed.

End GuardRuns.

Section GuardFacts.

Lemma call_http (setting : option Z) (events : list Event) :
  call "http" setting events = run (receive_wrapper setting) events.
Proof. reflexivity. Qed.

Lemma round_half_even_nearest (n d : Z) :
  0 < d -> 2 * Z.abs (Py.round_half_even n d * d - n) <= d.
Proof.
  intros Hd. unfold Py.round_half_even.
  pose proof (Z.div_mod n d ltac:(lia)) as Hdm.
  pose proof (Z.mod_pos_bound n d Hd) as Hr.
  set (q := n / d) in *. set (r := n mod d) in *.
  assert (Hq : q * d - n = - r) by lia.
  assert (Hq1 : (q + 1) * d - n = d - r) by lia.
  destruct (Z.ltb_spec (2 * r) d); [rewrite Hq; lia|].
  destruct (Z.ltb_spec d (2 * r)); [rewrite Hq1; lia|].
  destruct (Z.even q); [rewrite Hq | rewrite Hq1]; lia.
Qed.

(** [inner] raises exactly when it counts the chunk and the count passes
    the ceiling that the setting of this very call gives. *)
Lemma inner_raises_iff (w : World) (m : Message) :
  (exists exn, snd (inner w m) = Raise exn)
  <-> (exists limit,
         max_file_size_upload w = Some limit
         /\ is_http_request m = true
         /\ limit * MB < received w + body_len m).
Proof.
  unfold inner, MB.
  destruct (is_http_request m), (max_file_size_upload w) as [limit|];
    simpl.
  - destruct (Z.ltb_spec (limit * 1024 * 1024) (received w + body_len m));
      simpl; split.
    + intros _. exists limit. repeat split; lia.
    + intros _. eexists. reflexivity.
    + intros [exn Hx]. discriminate.
    + intros (l & Hl & _ & Hlt). inversion Hl; subst. lia.
  - split; [intros [exn Hx]; discriminate | intros (l & Hl & _); discriminate].
  - split; [intros [exn Hx]; discriminate|].
    intros (l & _ & Hl & _); discriminate.
  - split; [intros [exn Hx]; discriminate | intros (l & Hl & _); discriminate].
Qed.

Lemma body_len_KB400 : body_len KB400 = 400 * 1024.
Proof.
  unfold body_len, KB400, chunk; cbn [body]. rewrite repeat_length.
  vm_compute. reflexivity.
Qed.

(** Three chunks of 400 KB each under a limit of 1: two pass, the third
    raises at 1228800 bytes. *)
Lemma three_equal_chunks (m : Message) :
  is_http_request m = true ->
  body_len m = 400 * 1024 ->
  call "http" (Some 1) [Receive m; Receive m; Receive m] =
    {| forwarded := [m; m];
       error :=
         Some {| status_code := 413;
                 detail :=
                   "Content size limit exceeded. Maximum allowed is 1MB"
                     ++ " and got 1.172MB." |};
       unread := [];
       final := {| max_file_size_upload := Some 1;
                   received := 3 * (400 * 1024) |} |}.
Proof.
  intros Hm Hlen. rewrite call_http.
  set (w0 := receive_wrapper (Some 1)).
  assert (Hin1 : received w0 + body_len m <= 1 * MB)
    by (rewrite Hlen; vm_compute; discriminate).
  rewrite (run_receive_return _ _ _ _ _
             (inner_within w0 1 m Hm eq_refl Hin1)).
  set (w1 := set_received w0 _).
  assert (Hin2 : received w1 + body_len m <= 1 * MB)
    by (subst w1 w0; cbn [received set_received receive_wrapper];
        rewrite Hlen; vm_compute; discriminate).
  rewrite (run_receive_return _ _ _ _ _
             (inner_within w1 1 m Hm eq_refl Hin2)).
  set (w2 := set_received w1 _).
  assert (Hout : 1 * MB < received w2 + body_len m)
    by (subst w2 w1 w0; cbn [received set_received receive_wrapper];
        rewrite Hlen; vm_compute; reflexivity).
  rewrite (run_receive_raise _ _ _ _ _
             (inner_exceeds w2 1 m Hm eq_refl Hout)).
  subst w2 w1 w0.
  unfold prepend, set_received, receive_wrapper, MaxFileSizeException.
  cbn [forwarded error unread final received max_file_size_upload app].
  rewrite Hlen. vm_compute. reflexivity.
Qed.

(** A scope that is not ["http"] is served by the bare channel: every event
    is handed on and nothing is raised, whatever the setting. *)
Lemma call_other_scope (scope_type : string) (setting : option Z)
    (events : list Event) :
  (scope_type =? "http")%string = false ->
  forwarded (call scope_type setting events) = messages events
  /\ error (call scope_type setting events) = None.
Proof. unfold call. intros ->. split; reflexivity. Qed.

Example str_milli_1172 : Py.str_milli 1172 = "1.172".
Proof. reflexivity. Qed.

Example str_milli_2000 : Py.str_milli 2000 = "2.0".
Proof. reflexivity. Qed.

Example str_milli_62 : Py.str_milli 62 = "0.062".
Proof. reflexivity. Qed.

Example round3_mb_tie : Py.round3_mb 65536 = 62.
Proof. reflexivity. Qed.

End GuardFacts.

(** C1. For a sequence of body chunks whose cumulative byte length exceeds
    the configured limit times 1024*1024, the guard raises the 413 error
    once, at the chunk where the cumulative total first exceeds the
    threshold: the chunks before it are handed on, each with a cumulative
    total within the threshold, and the chunks after it are never read.
    (The sequence has a chunk; with a limit of zero or more that follows
    from the excess, see [excess_nonempty].) *)
Theorem guard_raises_at_first_excess (limit : Z) (chunks : list Message) :
  Forall (fun m => is_http_request m = true) chunks ->
  chunks <> [] ->
  limit * MB < cumulative chunks ->
  exists (pre : list Message) (m : Message) (post : list Message),
    chunks = (pre ++ m :: post)%list
    /\ (forall j : nat,
          (j < List.length pre)%nat ->
          cumulative (firstn (S j) chunks) <= limit * MB)
    /\ limit * MB < cumulative (pre ++ [m])
    /\ call "http" (Some limit) (map Receive chunks) =
         {| forwarded := pre;
            error :=
              Some {| status_code := 413;
                      detail :=
                        size_limit_msg limit (cumulative (pre ++ [m])) |};
            unread := map Receive post;
            final :=
              {| max_file_size_upload := Some limit;
                 received := cumulative (pre ++ [m]) |} |}.
Proof.
  intros Hall Hne Hlt. rewrite call_http.
  destruct (run_exceeds limit chunks (receive_wrapper (Some limit))
              eq_refl Hall Hne Hlt)
    as (pre & m & post & Heq & Hfirst & Hex & Hrun).
  exists pre, m, post. simpl in *.
  repeat split; assumption.
Qed.

Lemma guard_raises_at_first_excess_witness :
  exists (pre : list Message) (m : Message) (post : list Message),
    [bare; small; small] = (pre ++ m :: post)%list
    /\ (forall j : nat,
          (j < List.length pre)%nat ->
          cumulative (firstn (S j) [bare; small; small]) <= 0 * MB)
    /\ 0 * MB < cumulative (pre ++ [m])
    /\ call "http" (Some 0) (map Receive [bare; small; small]) =
         {| forwarded := pre;
            error :=
              Some {| status_code := 413;
                      detail := size_limit_msg 0 (cumulative (pre ++ [m])) |};
            unread := map Receive post;
            final :=
              {| max_file_size_upload := Some 0;
                 received := cumulative (pre ++ [m]) |} |}.
Proof.
  apply (guard_raises_at_first_excess 0 [bare; small; small]).
  - repeat constructor.
  - discriminate.
  - reflexivity.
Defined.

(** C2. For a sequence of body chunks whose cumulative byte length is at
    most the configured limit times 1024*1024, the guard hands every chunk
    on unchanged, in order, and raises no error. *)
Theorem guard_forwards_within_limit (limit : Z) (chunks : list Message) :
  Forall (fun m => is_http_request m = true) chunks ->
  cumulative chunks <= limit * MB ->
  call "http" (Some limit) (map Receive chunks) =
    {| forwarded := chunks;
       error := None;
       unread := [];
       final := {| max_file_size_upload := Some limit;
                   received := cumulative chunks |} |}.
Proof.
  intros Hall Hle. rewrite call_http.
  now rewrite (run_within limit chunks (receive_wrapper (Some limit))
                 eq_refl Hall Hle).
Qed.

Lemma guard_forwards_within_limit_witness :
  call "http" (Some 1) (map Receive [small; bare; small]) =
    {| forwarded := [small; bare; small];
       error := None;
       unread := [];
       final := {| max_file_size_upload := Some 1;
                   received := cumulative [small; bare; small] |} |}.
Proof.
  apply (guard_forwards_within_limit 1 [small; bare; small]).
  - repeat constructor.
  - discriminate.
Defined.

(** C7. When the setting is [None] (no limit), the guard raises nothing and
    hands every event on unchanged, whatever the sizes of the bodies. *)
Theorem guard_unlimited_never_raises (events : list Message) :
  call "http" None (map Receive events) =
    {| forwarded := events;
       error := None;
       unread := [];
       final := {| max_file_size_upload := None; received := 0 |} |}.
Proof. rewrite call_http. apply run_unlimited. Qed.

(** C8. The setting is read on every call of the wrapped [receive], not once
    per request.  After any events [pre] that raised nothing, the next chunk
    is checked by [inner] under the setting current at that moment (the last
    reconfiguration, or the start value when there was none); a
    reconfiguration right before the chunk is the one that counts; and the
    chunk raises exactly when that current setting is a number whose ceiling
    the counter passes, whatever the setting was when the request began. *)
Theorem setting_read_per_chunk (setting : option Z) (pre : list Event)
    (m : Message) (rest : list Event) :
  error (call "http" setting pre) = None ->
  let t := call "http" setting pre in
  let now := current_setting setting pre in
  let at_chunk (v : option Z) :=
    {| max_file_size_upload := v; received := received (final t) |} in
  call "http" setting (pre ++ Receive m :: rest) =
    prepend (forwarded t) (run (at_chunk now) (Receive m :: rest))
  /\ (forall v : option Z,
        call "http" setting (pre ++ Reconfigure v :: Receive m :: rest) =
          prepend (forwarded t) (run (at_chunk v) (Receive m :: rest)))
  /\ (forall v : option Z,
        (exists exn, snd (inner (at_chunk v) m) = Raise exn)
        <-> (exists limit,
               v = Some limit
               /\ is_http_request m = true
               /\ limit * MB < received (final t) + body_len m)).
Proof.
  intros Hok t now at_chunk. subst t now at_chunk.
  rewrite !call_http in *.
  pose proof (run_setting _ _ Hok) as Hset. simpl in Hset.
  assert (Hfinal : forall w : World,
             w = {| max_file_size_upload := max_file_size_upload w;
                    received := received w |})
    by (intros [? ?]; reflexivity).
  split; [|split].
  - rewrite (run_app _ pre (Receive m :: rest) Hok).
    rewrite <- Hset. now rewrite <- Hfinal.
  - intros v. rewrite call_http.
    rewrite (run_app _ pre (Reconfigure v :: Receive m :: rest) Hok).
    reflexivity.
  - intros v.
    exact (inner_raises_iff
             {| max_file_size_upload := v;
                received :=
                  received (final (run (receive_wrapper setting) pre)) |}
             m).
Qed.

Lemma setting_read_per_chunk_witness :
  call "http" (Some 1)
    ([Receive small; Receive small] ++ Reconfigure (Some 0) :: [Receive bare])
  = prepend [small; small]
      (run {| max_file_size_upload := Some 0; received := 6 |}
         [Receive bare]).
Proof.
  exact (proj1 (proj2 (setting_read_per_chunk (Some 1)
                         [Receive small; Receive small] bare [] eq_refl))
           (Some 0)).
Defined.

(** C9. When the limit is exceeded the error has status 413 and the detail
    "Content size limit exceeded. Maximum allowed is {N}MB and got {M}MB."
    with N the configured limit and M the counted bytes over 1024*1024,
    rounded to the nearest thousandth (for totals below 2^53 bytes, where the
    division is exact).  With a limit of 1 and three chunks of 400 KB the
    first two are handed on and the third raises, reporting 1MB and
    1.172MB. *)
Theorem size_limit_error_message :
  (forall (w : World) (limit : Z) (m : Message),
      is_http_request m = true ->
      max_file_size_upload w = Some limit ->
      0 <= received w ->
      received w + body_len m < 2 ^ 53 ->
      limit * MB < received w + body_len m ->
      exists thousandths : Z,
        2 * Z.abs (thousandths * MB - (received w + body_len m) * 1000) <= MB
        /\ snd (inner w m) =
             Raise {| status_code := 413;
                      detail :=
                        "Content size limit exceeded. Maximum allowed is "
                          ++ Py.str_int limit ++ "MB and got "
                          ++ Py.str_milli thousandths ++ "MB." |})
  /\ call "http" (Some 1) [Receive KB400; Receive KB400; Receive KB400] =
       {| forwarded := [KB400; KB400];
          error :=
            Some {| status_code := 413;
                    detail :=
                   "Content size limit exceeded. Maximum allowed is 1MB"
                     ++ " and got 1.172MB." |};
          unread := [];
          final := {| max_file_size_upload := Some 1;
                      received := 3 * (400 * 1024) |} |}.
Proof.
  split.
  - intros w limit m Hm Hmax Hpos Hbig Hlt.
    exists (Py.round3_mb (received w + body_len m)). split.
    + unfold Py.round3_mb. change (1024 * 1024) with MB.
      apply round_half_even_nearest. reflexivity.
    + rewrite (inner_exceeds w limit m Hm Hmax Hlt). simpl.
      unfold MaxFileSizeException, size_limit_msg. reflexivity.
  - apply three_equal_chunks; [reflexivity | apply body_len_KB400].
Qed.

Lemma size_limit_error_message_witness :
  exists thousandths : Z,
    2 * Z.abs (thousandths * MB - (1048574 + body_len small) * 1000) <= MB
    /\ snd (inner {| max_file_size_upload := Some 1; received := 1048574 |}
              small) =
         Raise {| status_code := 413;
                  detail :=
                    "Content size limit exceeded. Maximum allowed is "
                      ++ Py.str_int 1 ++ "MB and got "
                      ++ Py.str_milli thousandths ++ "MB." |}.
Proof.
  apply (proj1 size_limit_error_message
           {| max_file_size_upload := Some 1; received := 1048574 |} 1 small).
  - reflexivity.
  - reflexivity.
  - discriminate.
  - reflexivity.
  - reflexivity.
Defined.

(** C10. The counter moves only on [http.request] events read while the
    setting is a number: an event of another type, or one read while the
    setting is [None], leaves it as it is; a counted chunk adds its byte
    length, raised or not; over a whole request the counter holds what the
    processed events count for; and after a change from no limit to a
    number, the request goes on as one that starts at that point with a
    counter of 0. *)
Theorem counter_counts_only_limited_body_chunks :
  (forall (w : World) (m : Message),
      is_http_request m = false \/ max_file_size_upload w = None ->
      inner w m = (w, Return m))
  /\ (forall (w : World) (limit : Z) (m : Message),
        is_http_request m = true ->
        max_file_size_upload w = Some limit ->
        received (fst (inner w m)) = received w + body_len m)
  /\ (forall (setting : option Z) (events : list Event),
        exists processed : list Event,
          events = (processed ++ unread (call "http" setting events))%list
          /\ received (final (call "http" setting events)) =
               counted setting processed)
  /\ (forall (before : list Message) (limit : Z) (rest : list Event),
        call "http" None
          (map Receive before ++ Reconfigure (Some limit) :: rest) =
          prepend before (call "http" (Some limit) rest)).
Proof.
  repeat split.
  - apply inner_pass.
  - intros w limit m Hm Hmax. unfold inner. rewrite Hm, Hmax.
    destruct (limit * 1024 * 1024 <? received w + body_len m); reflexivity.
  - intros setting events. rewrite call_http.
    destruct (run_counted events (receive_wrapper setting))
      as (processed & Heq & Hrec).
    exists processed. split; [exact Heq | exact Hrec].
  - intros before limit rest. rewrite !call_http.
    rewrite run_app; unfold receive_wrapper; rewrite run_unlimited;
      reflexivity.
Qed.

Lemma counter_counts_only_limited_body_chunks_witness :
  inner {| max_file_size_upload := None; received := 7 |} small =
    ({| max_file_size_upload := None; received := 7 |}, Return small).
Proof.
  apply (proj1 counter_counts_only_limited_body_chunks).
  right. reflexivity.
Defined.

(** * Properties of the origin gate *)

Section StringFacts.

Lemma truthy_true (s : string) : Py.truthy s = true <-> s <> EmptyString.
Proof. destruct s; simpl; split; congruence. Qed.

Lemma truthy_false (s : string) : Py.truthy s = false <-> s = EmptyString.
Proof. destruct s; simpl; split; congruence. Qed.

Lemma any_true {A : Type} (f : A -> bool) (l : list A) :
  Py.any f l = true <-> exists x, In x l /\ f x = true.
Proof. apply existsb_exists. Qed.

Lemma any_false {A : Type} (f : A -> bool) (l : list A) :
  Py.any f l = false <-> forall x, In x l -> f x = false.
Proof.
  unfold Py.any. split.
  - intros H x Hx. destruct (f x) eqn:E; [|reflexivity].
    assert (existsb f l = true) by (apply existsb_exists; eauto).
    congruence.
  - intros H. destruct (existsb f l) eqn:E; [|reflexivity].
    apply existsb_exists in E. destruct E as (x & Hx & Hfx).
    rewrite (H x Hx) in Hfx. discriminate.
Qed.

(** [_is_origin_allowed] is the check of step 4: a non-empty origin that
    starts with an entry of the allow-list. *)
Lemma is_origin_allowed_iff (self : OriginValidationMiddleware)
    (origin : string) :
  _is_origin_allowed self origin = true
  <-> origin <> EmptyString
      /\ exists allowed,
           In allowed (allowed_origins self)
           /\ Py.startswith origin allowed = true.
Proof.
  unfold _is_origin_allowed. destruct (Py.truthy origin) eqn:E; simpl.
  - rewrite any_true. apply truthy_true in E. tauto.
  - apply truthy_false in E. split; [discriminate | tauto].
Qed.

(** The entries of a parsed allow-list are never empty. *)
Lemma init_entries_nonempty (env : option string) (allowed : string) :
  In allowed (allowed_origins (init env)) -> allowed <> EmptyString.
Proof.
  unfold init; simpl. intros H. apply filter_In in H.
  now apply truthy_true.
Qed.

End StringFacts.

Section GateProperties.

Variable Response : Type.
Variable JSONResponse : Z -> list (string * string) -> Response.
Variable call_next : Request -> Response.

(** C3. With a non-empty allow-list and a path that starts with no bypass
    prefix, the request is handed to the next handler, whose response is
    returned as it is, exactly when the extracted origin is non-empty and
    starts with an entry of the allow-list; otherwise the next handler is
    not called, a warning names the origin (or "unknown origin" when it is
    empty) and the response is the 401 with the "detail" of
    "Direct access not allowed". *)
Theorem origin_check_decides (self : OriginValidationMiddleware)
    (request : Request) :
  allowed_origins self <> [] ->
  (forall p, In p (bypass_paths self) ->
             Py.startswith (path request) p = false) ->
  let origin := request_origin request in
  let allowed :=
    origin <> EmptyString
    /\ exists entry,
         In entry (allowed_origins self)
         /\ Py.startswith origin entry = true in
  (allowed ->
   dispatch JSONResponse call_next self request =
     (call_next request, [CallNext request]))
  /\ (~ allowed ->
      dispatch JSONResponse call_next self request =
        (JSONResponse 401 [("detail", "Direct access not allowed")],
         [LogWarning
            ("🚫 Blocked direct access from: "
               ++ match origin with
                  | EmptyString => "unknown origin"
                  | String _ _ => origin
                  end)]))
  /\ (In (CallNext request)
         (snd (dispatch JSONResponse call_next self request))
      <-> allowed).
Proof.
  intros Hne Hpath origin allowed.
  assert (Hbypass :
            Py.any (fun p => Py.startswith (path request) p)
              (bypass_paths self) = false)
    by now apply any_false.
  assert (Hstep :
            dispatch JSONResponse call_next self request =
              if negb (_is_origin_allowed self origin)
              then (JSONResponse 401 [("detail", "Direct access not allowed")],
                    [LogWarning (blocked_msg origin)])
              else (call_next request, [CallNext request])).
  { unfold dispatch. destruct (allowed_origins self); [congruence|].
    rewrite Hbypass. fold origin.
    destruct (_is_origin_allowed _ origin); reflexivity. }
  pose proof (is_origin_allowed_iff self origin) as Hiff. fold allowed in Hiff.
  assert (Hmsg :
            blocked_msg origin =
              "🚫 Blocked direct access from: "
                ++ match origin with
                   | EmptyString => "unknown origin"
                   | String _ _ => origin
                   end)
    by (unfold blocked_msg; destruct origin; reflexivity).
  rewrite Hstep, <- Hmsg.
  destruct (_is_origin_allowed self origin) eqn:E; simpl.
  - assert (Ha : allowed) by now apply Hiff.
    split; [reflexivity|]. split; [tauto|]. split; [tauto | now left].
  - assert (Ha : ~ allowed) by (intros Ha; apply Hiff in Ha; discriminate).
    split; [tauto|]. split; [reflexivity|].
    split; [intros [H | []]; discriminate | tauto].
Qed.

(** C5. With an empty allow-list every request, whatever its path and its
    headers, is handed to the next handler and that handler's response is
    returned as it is; nothing is logged and no 401 is built. *)
Theorem empty_allow_list_forwards (self : OriginValidationMiddleware)
    (request : Request) :
  allowed_origins self = [] ->
  dispatch JSONResponse call_next self request =
    (call_next request, [CallNext request]).
Proof. unfold dispatch. now intros ->. Qed.

(** C6. A request whose path starts with /health, /docs or /openapi.json
    is handed to the next handler whatever its headers and whatever the
    allow-list: the bypass is decided before the origin is looked at. *)
Theorem bypass_path_forwards (env : option string) (request : Request)
    (prefix : string) :
  In prefix ["/health"; "/docs"; "/openapi.json"] ->
  Py.startswith (path request) prefix = true ->
  dispatch JSONResponse call_next (init env) request =
    (call_next request, [CallNext request]).
Proof.
  intros Hin Hstart. unfold dispatch.
  destruct (allowed_origins (init env)); [reflexivity|].
  replace (Py.any _ (bypass_paths (init env))) with true; [reflexivity|].
  symmetry. apply any_true. exists prefix. now split.
Qed.

End GateProperties.

Lemma origin_check_decides_witness :
  dispatch plain_json echo_next example_gate
    {| path := "/api/x"; headers := [("origin", "https://example.com/app")] |}
  = (echo_next
       {| path := "/api/x";
          headers := [("origin", "https://example.com/app")] |},
     [CallNext
        {| path := "/api/x";
           headers := [("origin", "https://example.com/app")] |}]).
Proof.
  refine (proj1 (origin_check_decides _ plain_json echo_next example_gate
                   {| path := "/api/x";
                      headers := [("origin", "https://example.com/app")] |}
                   _ _) _).
  - discriminate.
  - intros p [<- | [<- | [<- | []]]]; reflexivity.
  - split; [discriminate|].
    exists "https://example.com". split; [now left | reflexivity].
Defined.

Lemma empty_allow_list_forwards_witness :
  dispatch plain_json echo_next (init None)
    {| path := "/api/x"; headers := [("origin", "https://evil.com")] |}
  = (echo_next
       {| path := "/api/x"; headers := [("origin", "https://evil.com")] |},
     [CallNext
        {| path := "/api/x"; headers := [("origin", "https://evil.com")] |}]).
Proof.
  apply (empty_allow_list_forwards _ plain_json echo_next (init None)).
  reflexivity.
Defined.

Lemma bypass_path_forwards_witness :
  dispatch plain_json echo_next example_gate
    {| path := "/health"; headers := [("origin", "https://evil.com")] |}
  = (echo_next
       {| path := "/health"; headers := [("origin", "https://evil.com")] |},
     [CallNext
        {| path := "/health"; headers := [("origin", "https://evil.com")] |}]).
Proof.
  apply (bypass_path_forwards _ plain_json echo_next
           (Some "https://example.com") _ "/health").
  - now left.
  - reflexivity.
Defined.

(** The three remaining requests of the specification's example, against the
    allow-list of https://example.com. *)
Example evil_origin_rejected :
  dispatch plain_json echo_next example_gate
    {| path := "/api/x"; headers := [("origin", "https://evil.com")] |}
  = ((401, [("detail", "Direct access not allowed")]),
     [LogWarning "🚫 Blocked direct access from: https://evil.com"]).
Proof. reflexivity. Qed.

Example no_origin_rejected :
  dispatch plain_json echo_next example_gate
    {| path := "/api/x"; headers := [] |}
  = ((401, [("detail", "Direct access not allowed")]),
     [LogWarning "🚫 Blocked direct access from: unknown origin"]).
Proof. reflexivity. Qed.

(** C4, as the specification states it, fails on a request whose [Origin]
    header is there with an empty value: the header is present, yet the
    value checked is the one of the [Referer] header, and the request
    passes. *)
Lemma empty_origin_falls_back_to_referer :
  headers_get "origin" (headers empty_origin_request) = Some EmptyString
  /\ spec_request_origin empty_origin_request = EmptyString
  /\ request_origin empty_origin_request = "https://example.com/app"
  /\ request_origin empty_origin_request
       <> spec_request_origin empty_origin_request
  /\ dispatch plain_json echo_next example_gate empty_origin_request
     = (echo_next empty_origin_request, [CallNext empty_origin_request]).
Proof. repeat split; discriminate. Qed.

(** C4, amended.  The origin value the gate checks is the value of the
    [Origin] header when that header is present with a non-empty value; the
    [Referer] header is consulted only when the [Origin] header is absent or
    empty, and then gives the value; when that leaves no header, the
    origin is the empty string.  Away from an empty [Origin] header this is
    the specification's wording. *)
Theorem origin_value_extracted (request : Request) :
  (forall value : string,
      headers_get "origin" (headers request) = Some value ->
      value <> EmptyString ->
      request_origin request = value)
  /\ (headers_get "origin" (headers request) = None
      \/ headers_get "origin" (headers request) = Some EmptyString ->
      (forall value : string,
          headers_get "referer" (headers request) = Some value ->
          request_origin request = value)
      /\ (headers_get "referer" (headers request) = None ->
          request_origin request = EmptyString))
  /\ (headers_get "origin" (headers request) <> Some EmptyString ->
      request_origin request = spec_request_origin request).
Proof.
  unfold request_origin, spec_request_origin, headers_get_default, Py.or_else.
  split; [|split].
  - intros value -> Hne. apply truthy_true in Hne. now rewrite Hne.
  - intros Horigin. split.
    + intros value Hr. rewrite Hr. destruct Horigin as [-> | ->]; reflexivity.
    + intros Hr. rewrite Hr. destruct Horigin as [-> | ->]; reflexivity.
  - intros Hne. destruct (headers_get "origin" (headers request)) as [v|];
      [|reflexivity].
    destruct v; [congruence | reflexivity].
Qed.

Lemma origin_value_extracted_witness :
  request_origin
    {| path := "/api/x";
       headers := [("referer", "https://example.com/r");
                   ("origin", "https://example.com/o")] |}
  = "https://example.com/o".
Proof.
  apply (proj1 (origin_value_extracted
                  {| path := "/api/x";
                     headers := [("referer", "https://example.com/r");
                                 ("origin", "https://example.com/o")] |})).
  - reflexivity.
  - discriminate.
Defined.

(** * Further properties of the allow-list parser *)

Section StripFacts.

Lemma lstrip_head (s : string) :
  match Str.lstrip s with
  | EmptyString => True
  | String c _ => Str.isspace c = false
  end.
Proof.
  induction s as [|c rest IH]; simpl; [exact I|].
  destruct (Str.isspace c) eqn:E; [exact IH | simpl; exact E].
Qed.

Lemma rstrip_idem (s : string) : Str.rstrip (Str.rstrip s) = Str.rstrip s.
Proof.
  induction s as [|c rest IH]; [reflexivity|].
  simpl. destruct (Str.rstrip rest) as [|k kept] eqn:E.
  - destruct (Str.isspace c) eqn:Ec; [reflexivity|].
    simpl. now rewrite Ec.
  - change (Str.rstrip (String c (String k kept)))
      with (match Str.rstrip (String k kept) with
            | EmptyString =>
                if Str.isspace c then EmptyString else String c EmptyString
            | String a b => String c (String a b)
            end).
    now rewrite IH.
Qed.

Lemma rstrip_head (c : ascii) (rest : string) :
  Str.isspace c = false ->
  exists kept, Str.rstrip (String c rest) = String c kept.
Proof.
  intros Hc. simpl. destruct (Str.rstrip rest) as [|k kept].
  - rewrite Hc. now exists EmptyString.
  - now exists (String k kept).
Qed.

Lemma lstrip_fixed (c : ascii) (rest : string) :
  Str.isspace c = false -> Str.lstrip (String c rest) = String c rest.
Proof. intros Hc. simpl. now rewrite Hc. Qed.

Lemma strip_idem (s : string) : Str.strip (Str.strip s) = Str.strip s.
Proof.
  unfold Str.strip. pose proof (lstrip_head s) as Hh.
  destruct (Str.lstrip s) as [|c rest]; [reflexivity|].
  destruct (rstrip_head c rest Hh) as [kept Hk].
  rewrite Hk, (lstrip_fixed c kept Hh), <- Hk. apply rstrip_idem.
Qed.

Lemma lstrip_empty (s : string) :
  Str.lstrip s = EmptyString <-> blank s = true.
Proof.
  unfold blank. induction s as [|c rest IH]; simpl; [tauto|].
  destruct (Str.isspace c); simpl; [exact IH|].
  split; discriminate.
Qed.

Lemma strip_empty (s : string) :
  Str.strip s = EmptyString <-> blank s = true.
Proof.
  rewrite <- lstrip_empty. unfold Str.strip.
  pose proof (lstrip_head s) as Hh.
  destruct (Str.lstrip s) as [|c rest]; [tauto|].
  destruct (rstrip_head c rest Hh) as [kept ->]. split; discriminate.
Qed.

Lemma all_chars_lstrip (p : ascii -> bool) (s : string) :
  all_chars p s = true -> all_chars p (Str.lstrip s) = true.
Proof.
  induction s as [|c rest IH]; simpl; [tauto|].
  intros H. apply andb_true_iff in H. destruct H as [Hc Hr].
  destruct (Str.isspace c); [auto|].
  simpl. now rewrite Hc, Hr.
Qed.

Lemma all_chars_rstrip (p : ascii -> bool) (s : string) :
  all_chars p s = true -> all_chars p (Str.rstrip s) = true.
Proof.
  induction s as [|c rest IH]; simpl; [tauto|].
  intros H. apply andb_true_iff in H. destruct H as [Hc Hr].
  specialize (IH Hr). destruct (Str.rstrip rest) as [|k kept].
  - destruct (Str.isspace c); simpl; [reflexivity|]. now rewrite Hc.
  - simpl. rewrite Hc. exact IH.
Qed.

Lemma all_chars_strip (p : ascii -> bool) (s : string) :
  all_chars p s = true -> all_chars p (Str.strip s) = true.
Proof. intros H. now apply all_chars_rstrip, all_chars_lstrip. Qed.

Lemma all_chars_app (p : ascii -> bool) (a b : string) :
  all_chars p (a ++ b) = all_chars p a && all_chars p b.
Proof.
  induction a as [|c rest IH]; simpl; [reflexivity|].
  now rewrite IH, andb_assoc.
Qed.

End StripFacts.

Section SplitFacts.

Lemma split_comma_cons_form (s : string) :
  exists first others, Str.split_comma s = first :: others.
Proof.
  induction s as [|c rest (first & others & IH)]; simpl; [now eexists _, _|].
  destruct (Ascii.eqb c ","); [now eexists _, _|].
  rewrite IH. now eexists _, _.
Qed.

Lemma split_comma_free (s : string) :
  Forall (fun piece => comma_free piece = true) (Str.split_comma s).
Proof.
  induction s as [|c rest IH]; simpl; [now repeat constructor|].
  destruct (Ascii.eqb c ",") eqn:Ec; [now constructor|].
  destruct (split_comma_cons_form rest) as (first & others & Hs).
  rewrite Hs in *.
  inversion IH as [|? ? Hfirst Hothers]; subst. constructor; [|assumption].
  unfold comma_free, is_comma in *. simpl. now rewrite Ec.
Qed.

Lemma split_blank (s : string) :
  Forall (fun piece => blank piece = true) (Str.split_comma s)
  <-> all_chars comma_or_space s = true.
Proof.
  induction s as [|c rest IH]; simpl.
  - split; [reflexivity | now repeat constructor].
  - unfold comma_or_space at 1, is_comma.
    destruct (Ascii.eqb_spec c ",") as [-> | Hc]; simpl.
    + rewrite <- IH. split.
      * intros H. now inversion H.
      * intros H. now constructor.
    + destruct (split_comma_cons_form rest) as (first & others & Hs).
      rewrite Hs in *. rewrite andb_true_iff, <- IH. split.
      * intros H. inversion H as [|? ? Hfirst Hothers]; subst.
        unfold blank in Hfirst. simpl in Hfirst.
        apply andb_true_iff in Hfirst. destruct Hfirst as [Hsp Hfirst].
        split; [exact Hsp | now constructor].
      * intros [Hsp H]. inversion H as [|? ? Hfirst Hothers]; subst.
        constructor; [|assumption].
        unfold blank in *. simpl. now rewrite Hsp.
Qed.

Lemma split_single (piece : string) :
  comma_free piece = true -> Str.split_comma piece = [piece].
Proof.
  unfold comma_free, is_comma.
  induction piece as [|c rest IH]; simpl; [reflexivity|].
  intros H. apply andb_true_iff in H. destruct H as [Hc Hr].
  apply negb_true_iff in Hc. rewrite Hc, (IH Hr). reflexivity.
Qed.

Lemma split_cons (piece rest : string) :
  comma_free piece = true ->
  Str.split_comma (piece ++ String "," rest) = piece :: Str.split_comma rest.
Proof.
  unfold comma_free, is_comma.
  induction piece as [|c more IH]; simpl; [reflexivity|].
  intros H. apply andb_true_iff in H. destruct H as [Hc Hr].
  apply negb_true_iff in Hc. rewrite Hc, (IH Hr). reflexivity.
Qed.

Lemma split_join (pieces : list string) :
  pieces <> [] ->
  Forall (fun piece => comma_free piece = true) pieces ->
  Str.split_comma (join_comma pieces) = pieces.
Proof.
  induction pieces as [|piece rest IH]; [congruence|].
  intros _ Hall. inversion Hall as [|? ? Hp Hrest]; subst.
  destruct rest as [|next rest].
  - simpl. now apply split_single.
  - change (join_comma (piece :: next :: rest))
      with (piece ++ String "," (join_comma (next :: rest))).
    rewrite (split_cons _ _ Hp), IH; [reflexivity | discriminate | assumption].
Qed.

Lemma blank_comma_free (s : string) : blank s = true -> comma_free s = true.
Proof.
  unfold blank, comma_free, is_comma.
  induction s as [|c rest IH]; simpl; [reflexivity|].
  intros H. apply andb_true_iff in H. destruct H as [Hc Hr].
  rewrite (IH Hr), andb_true_r.
  destruct (Ascii.eqb_spec c ",") as [-> | _]; [discriminate | reflexivity].
Qed.

Lemma lstrip_app_blank (pad s : string) :
  blank pad = true -> Str.lstrip (pad ++ s) = Str.lstrip s.
Proof.
  unfold blank. induction pad as [|c rest IH]; simpl; [reflexivity|].
  intros H. apply andb_true_iff in H. destruct H as [Hc Hr].
  rewrite Hc. now apply IH.
Qed.

Lemma rstrip_blank (pad : string) :
  blank pad = true -> Str.rstrip pad = EmptyString.
Proof.
  unfold blank. induction pad as [|c rest IH]; simpl; [reflexivity|].
  intros H. apply andb_true_iff in H. destruct H as [Hc Hr].
  now rewrite (IH Hr), Hc.
Qed.

Lemma rstrip_app_blank (s pad : string) :
  blank pad = true -> Str.rstrip (s ++ pad) = Str.rstrip s.
Proof.
  intros Hpad. induction s as [|c rest IH]; simpl.
  - now apply rstrip_blank.
  - now rewrite IH.
Qed.

(** A non-empty string that [strip] leaves alone has no white space at
    either end. *)
Lemma stripped_fixed (s : string) :
  Str.strip s = s ->
  s <> EmptyString ->
  Str.lstrip s = s /\ Str.rstrip s = s.
Proof.
  intros Hs Hne. destruct s as [|c rest]; [congruence|].
  assert (Hc : Str.isspace c = false).
  { pose proof (lstrip_head (String c rest)) as Hh.
    unfold Str.strip in Hs.
    destruct (Str.lstrip (String c rest)) as [|d more]; [discriminate|].
    destruct (rstrip_head d more Hh) as [kept Hk].
    rewrite Hk in Hs. inversion Hs; subst. exact Hh. }
  unfold Str.strip in Hs. rewrite (lstrip_fixed c rest Hc) in *.
  now split.
Qed.

Lemma strip_padded (p : Padded) :
  blank (pad_left p) = true ->
  blank (pad_right p) = true ->
  Str.strip (entry p) = entry p ->
  Str.strip (padded_text p) = entry p.
Proof.
  intros Hl Hr He. unfold padded_text, Str.strip.
  rewrite (lstrip_app_blank _ _ Hl).
  destruct (entry p) as [|c rest] eqn:E.
  - simpl. apply lstrip_empty in Hr. rewrite Hr. reflexivity.
  - destruct (stripped_fixed (String c rest) He ltac:(discriminate))
      as [Hls Hrs].
    assert (Hc : Str.isspace c = false).
    { pose proof (lstrip_head (String c rest)) as Hh. now rewrite Hls in Hh. }
    change (String c rest ++ pad_right p)
      with (String c (rest ++ pad_right p)).
    rewrite (lstrip_fixed c _ Hc).
    change (String c (rest ++ pad_right p))
      with (String c rest ++ pad_right p).
    now rewrite (rstrip_app_blank _ _ Hr).
Qed.

Lemma filter_truthy_nil (l : list string) :
  filter Py.truthy l = [] <-> Forall (fun s => s = EmptyString) l.
Proof.
  induction l as [|s l IH]; simpl; [split; constructor|].
  destruct s as [|c rest]; simpl.
  - rewrite IH. split; [now constructor | intros H; now inversion H].
  - split; [discriminate | intros H; inversion H; discriminate].
Qed.

End SplitFacts.

Section PrefixFacts.

Lemma prefix_iff_app (p s : string) :
  String.prefix p s = true <-> exists rest, s = p ++ rest.
Proof.
  revert s. induction p as [|c p IH]; intros s.
  - split; [intros _; now exists s | intros _; now destruct s].
  - destruct s as [|d s]; simpl.
    + split; [discriminate | intros [rest H]; discriminate].
    + destruct (ascii_dec c d) as [-> | Hne].
      * rewrite IH. split; intros [rest H]; exists rest.
        -- now rewrite H.
        -- now inversion H.
      * split; [discriminate|]. intros [rest H]. inversion H. congruence.
Qed.

Lemma parsed_entries (env : option string) :
  allowed_origins (init env) =
    filter Py.truthy
      (map Str.strip
         (Str.split_comma
            match env with Some v => v | None => EmptyString end)).
Proof. reflexivity. Qed.

Lemma init_empty_iff (env : option string) :
  allowed_origins (init env) = []
  <-> match env with
      | None => True
      | Some text => all_chars comma_or_space text = true
      end.
Proof.
  rewrite parsed_entries, filter_truthy_nil, Forall_map.
  destruct env as [text|].
  - rewrite <- split_blank. split; intros H; rewrite Forall_forall in *;
      intros piece Hp; specialize (H piece Hp); now apply strip_empty.
  - simpl. split; [tauto | now repeat constructor].
Qed.

End PrefixFacts.

(** X10. Every entry of the allow-list that [__init__] builds is non-empty,
    has no white space at either end ([strip] leaves it as it is) and holds
    no comma. *)
Theorem parsed_entries_clean (env : option string) (allowed : string) :
  In allowed (allowed_origins (init env)) ->
  allowed <> EmptyString
  /\ Str.strip allowed = allowed
  /\ comma_free allowed = true.
Proof.
  rewrite parsed_entries. intros H. apply filter_In in H.
  destruct H as [Hin Hne]. apply truthy_true in Hne.
  apply in_map_iff in Hin. destruct Hin as (piece & <- & Hpiece).
  repeat split; [assumption | apply strip_idem |].
  apply all_chars_strip.
  pose proof (split_comma_free
                match env with Some v => v | None => EmptyString end) as Hall.
  rewrite Forall_forall in Hall. now apply Hall.
Qed.

Lemma parsed_entries_clean_witness :
  "http://a.b" <> EmptyString
  /\ Str.strip "http://a.b" = "http://a.b"
  /\ comma_free "http://a.b" = true.
Proof.
  apply (parsed_entries_clean (Some " https://example.com , ,http://a.b ,")).
  right. left. reflexivity.
Defined.

(** X11. The allow-list that [__init__] builds is empty exactly when
    [ALLOWED_ORIGINS] is not set or holds nothing but commas and white
    space. *)
Theorem allow_list_empty_iff_blank (env : option string) :
  allowed_origins (init env) = []
  <-> match env with
      | None => True
      | Some text => all_chars comma_or_space text = true
      end.
Proof. apply init_empty_iff. Qed.

Lemma allow_list_empty_iff_blank_witness :
  allowed_origins (init (Some " , ,, ")) = [].
Proof.
  apply (proj2 (allow_list_empty_iff_blank (Some " , ,, "))).
  reflexivity.
Defined.

(** X12. Writing entries separated by commas, each with any white space
    around it, and reading the text back with [__init__] gives the entries
    in their order, the empty ones left out; duplicates stay.  The entries
    are any strings with no comma and no white space at their ends. *)
Theorem parse_of_joined_entries (written : list Padded) :
  Forall (fun p =>
            blank (pad_left p) = true
            /\ blank (pad_right p) = true
            /\ Str.strip (entry p) = entry p
            /\ comma_free (entry p) = true) written ->
  allowed_origins (init (Some (join_comma (map padded_text written)))) =
    filter Py.truthy (map entry written).
Proof.
  intros Hall. rewrite parsed_entries.
  destruct written as [|p written]; [reflexivity|].
  rewrite split_join; [|discriminate|].
  - rewrite map_map. f_equal. apply map_ext_in.
    intros q Hq. rewrite Forall_forall in Hall.
    destruct (Hall q Hq) as (Hl & Hr & He & _). now apply strip_padded.
  - rewrite Forall_map. rewrite Forall_forall in *. intros q Hq.
    destruct (Hall q Hq) as (Hl & Hr & _ & He).
    pose proof (blank_comma_free _ Hl) as Hl'.
    pose proof (blank_comma_free _ Hr) as Hr'.
    unfold padded_text, comma_free in *.
    rewrite !all_chars_app, Hl', Hr', He. reflexivity.
Qed.

Lemma parse_of_joined_entries_witness :
  allowed_origins
    (init (Some (join_comma
                   (map padded_text
                      [mkPadded " " "https://example.com" EmptyString;
                       mkPadded "  " EmptyString EmptyString;
                       mkPadded EmptyString "http://a.b" " "])))) =
    filter Py.truthy
      (map entry
         [mkPadded " " "https://example.com" EmptyString;
          mkPadded "  " EmptyString EmptyString;
          mkPadded EmptyString "http://a.b" " "]).
Proof.
  apply parse_of_joined_entries.
  repeat constructor.
Defined.

(** X13. For a gate built by [__init__], an origin is allowed exactly when
    it is an entry of the allow-list followed by anything: the entry itself,
    and every string that merely begins with it. *)
Theorem configured_gate_allows_extensions (env : option string)
    (origin : string) :
  _is_origin_allowed (init env) origin = true
  <-> exists allowed rest,
        In allowed (allowed_origins (init env))
        /\ origin = allowed ++ rest.
Proof.
  rewrite is_origin_allowed_iff. split.
  - intros (_ & allowed & Hin & Hp). apply prefix_iff_app in Hp.
    destruct Hp as [rest ->]. now exists allowed, rest.
  - intros (allowed & rest & Hin & ->). split.
    + pose proof (init_entries_nonempty env allowed Hin) as Hne.
      destruct allowed; [congruence | discriminate].
    + exists allowed. split; [assumption|].
      apply prefix_iff_app. now exists rest.
Qed.

Lemma configured_gate_allows_extensions_witness :
  _is_origin_allowed example_gate "https://example.com.evil.org" = true.
Proof.
  apply (proj2 (configured_gate_allows_extensions
                  (Some "https://example.com")
                  "https://example.com.evil.org")).
  exists "https://example.com", ".evil.org".
  split; [now left | reflexivity].
Defined.

(** * Further properties of the body size guard *)

Section GuardInvariants.

Lemma body_bytes_nonneg (ms : list Message) : 0 <= body_bytes ms.
Proof.
  induction ms as [|m ms IH]; simpl; [lia|].
  pose proof (body_len_nonneg m). destruct (is_http_request m); lia.
Qed.

Lemma body_bytes_http (ms : list Message) :
  Forall (fun m => is_http_request m = true) ms ->
  body_bytes ms = cumulative ms.
Proof.
  induction 1 as [|m ms Hm _ IH]; simpl; [reflexivity|].
  rewrite Hm, IH. reflexivity.
Qed.

(** What [inner] returns is the message it read, and what it raises is a
    413 for an [http.request] event. *)
Lemma inner_cases (w : World) (m : Message) :
  (exists w', inner w m = (w', Return m)
              /\ received w <= received w'
              /\ received w' <=
                   received w + (if is_http_request m then body_len m else 0))
  \/ (exists limit,
        is_http_request m = true
        /\ max_file_size_upload w = Some limit
        /\ limit * MB < received w + body_len m
        /\ inner w m =
             (set_received w (received w + body_len m),
              Raise (MaxFileSizeException
                       (size_limit_msg limit (received w + body_len m))))).
Proof.
  pose proof (body_len_nonneg m) as Hlen.
  destruct (is_http_request m) eqn:Hm.
  - destruct (max_file_size_upload w) as [limit|] eqn:Hmax.
    + destruct (Z.ltb_spec (limit * MB) (received w + body_len m))
        as [Hlt | Hle].
      * right. exists limit. repeat split; try assumption.
        now apply inner_exceeds.
      * left. eexists. split; [now apply (inner_within w limit)|].
        simpl. lia.
    + left. exists w. rewrite (inner_pass w m (or_intror Hmax)).
      repeat split; lia.
  - left. exists w. rewrite (inner_pass w m (or_introl Hm)).
    repeat split; lia.
Qed.

Lemma run_prefix (events : list Event) :
  forall w : World,
    match error (run w events) with
    | None =>
        forwarded (run w events) = messages events
        /\ unread (run w events) = []
    | Some exn =>
        status_code exn = 413
        /\ exists m,
             is_http_request m = true
             /\ messages events =
                  (forwarded (run w events)
                     ++ m :: messages (unread (run w events)))%list
    end.
Proof.
  induction events as [|e events IH]; intros w; [now split|].
  destruct e as [m | v]; [|apply IH].
  destruct (inner_cases w m)
    as [(w' & Hret & _) | (limit & Hm & _ & _ & Hraise)].
  - rewrite (run_receive_return _ _ _ _ _ Hret). simpl.
    specialize (IH w'). destruct (error (run w' events)) as [exn|].
    + destruct IH as (Hcode & m' & Hm' & Heq). split; [assumption|].
      exists m'. split; [assumption | now rewrite Heq].
    + destruct IH as [-> ->]. now split.
  - rewrite (run_receive_raise _ _ _ _ _ Hraise). simpl.
    split; [reflexivity|]. now exists m.
Qed.

Lemma run_counter_bounds (events : list Event) :
  forall w : World,
    received w <= received (final (run w events))
    /\ received (final (run w events)) <=
         received w + body_bytes (messages events).
Proof.
  induction events as [|e events IH]; intros w; simpl messages.
  - simpl. lia.
  - destruct e as [m | v]; [|apply (IH (set_max_file_size_upload w v))].
    pose proof (body_bytes_nonneg (messages events)) as Hrest.
    pose proof (body_len_nonneg m) as Hlen.
    destruct (inner_cases w m)
      as [(w' & Hret & Hlo & Hhi) | (limit & Hm & _ & _ & Hraise)].
    + rewrite (run_receive_return _ _ _ _ _ Hret).
      specialize (IH w'). simpl in *. lia.
    + rewrite (run_receive_raise _ _ _ _ _ Hraise).
      simpl. rewrite Hm. lia.
Qed.

Lemma run_forwarded_bytes (limit : Z) (ms : list Message) :
  forall w : World,
    max_file_size_upload w = Some limit ->
    received w <= limit * MB ->
    received w + body_bytes (forwarded (run w (map Receive ms)))
    <= limit * MB.
Proof.
  induction ms as [|m ms IH]; intros w Hmax Hle; [simpl; lia|].
  change (map Receive (m :: ms)) with (Receive m :: map Receive ms).
  destruct (is_http_request m) eqn:Hm.
  - destruct (Z.ltb_spec (limit * MB) (received w + body_len m)) as [Hlt | Hin].
    + rewrite (run_receive_raise _ _ _ _ _
                 (inner_exceeds w limit m Hm Hmax Hlt)).
      simpl. lia.
    + rewrite (run_receive_return _ _ _ _ _
                 (inner_within w limit m Hm Hmax Hin)).
      specialize (IH (set_received w (received w + body_len m)) Hmax Hin).
      simpl in *. rewrite Hm. lia.
  - rewrite (run_receive_return _ _ _ _ _
               (inner_pass w m (or_introl Hm))).
    specialize (IH w Hmax Hle). simpl. rewrite Hm. lia.
Qed.

(** Under a fixed limit of zero or more, body chunks pass as a whole exactly
    when their bytes together stay within the ceiling. *)
Lemma run_ok_iff (limit : Z) (chunks : list Message) :
  0 <= limit ->
  Forall (fun m => is_http_request m = true) chunks ->
  error (run (receive_wrapper (Some limit)) (map Receive chunks)) = None
  <-> cumulative chunks <= limit * MB.
Proof.
  intros Hlimit Hall. split.
  - intros Hok.
    destruct (Z.leb_spec (cumulative chunks) (limit * MB)) as [Hle | Hlt];
      [assumption|].
    pose proof (excess_nonempty limit chunks Hlimit Hlt) as Hne.
    destruct (run_exceeds limit chunks (receive_wrapper (Some limit))
                eq_refl Hall Hne Hlt)
      as (pre & m & post & _ & _ & _ & Hrun).
    rewrite Hrun in Hok. discriminate.
  - intros Hle.
    now rewrite (run_within limit chunks (receive_wrapper (Some limit))
                   eq_refl Hall Hle).
Qed.


End GuardInvariants.



(** X2. Whatever the events and the reconfigurations, the guard hands on a
    prefix of the channel, in order and unchanged: all of it when nothing is
    raised; otherwise the error is a 413, raised on an [http.request] event,
    and what was handed on, that event and the unread ones make up the
    channel. *)
Theorem forwarded_is_prefix (setting : option Z) (events : list Event) :
  match error (call "http" setting events) with
  | None =>
      forwarded (call "http" setting events) = messages events
      /\ unread (call "http" setting events) = []
  | Some exn =>
      status_code exn = 413
      /\ exists m,
           is_http_request m = true
           /\ messages events =
                (forwarded (call "http" setting events)
                   ++ m :: messages (unread (call "http" setting events)))%list
  end.
Proof. rewrite call_http. apply run_prefix. Qed.

(** X3. Under a fixed limit of zero or more, the body bytes handed to the
    application never exceed the limit times 1024*1024, whatever the
    events. *)
Theorem forwarded_bytes_within_limit (limit : Z) (ms : list Message) :
  0 <= limit ->
  body_bytes (forwarded (call "http" (Some limit) (map Receive ms)))
  <= limit * MB.
Proof.
  intros Hlimit. rewrite call_http.
  pose proof (run_forwarded_bytes limit ms (receive_wrapper (Some limit))
                eq_refl ltac:(simpl; unfold MB; lia)) as H.
  simpl in H. exact H.
Qed.

Lemma forwarded_bytes_within_limit_witness :
  body_bytes (forwarded (call "http" (Some 0)
                           (map Receive [bare; small; small])))
  <= 0 * MB.
Proof.
  apply (forwarded_bytes_within_limit 0 [bare; small; small]).
  discriminate.
Defined.

(** X4. Under a fixed limit of zero or more, whether a body passes depends
    only on its size, not on how it is cut into chunks: two sequences of
    body chunks with the same cumulative length both pass or both raise. *)
Theorem verdict_independent_of_chunking (limit : Z)
    (chunks chunks' : list Message) :
  0 <= limit ->
  Forall (fun m => is_http_request m = true) chunks ->
  Forall (fun m => is_http_request m = true) chunks' ->
  cumulative chunks = cumulative chunks' ->
  (error (call "http" (Some limit) (map Receive chunks)) = None
   <-> error (call "http" (Some limit) (map Receive chunks')) = None).
Proof.
  intros Hlimit Hall Hall' Hsame. rewrite !call_http.
  rewrite (run_ok_iff limit chunks Hlimit Hall).
  rewrite (run_ok_iff limit chunks' Hlimit Hall').
  now rewrite Hsame.
Qed.

Lemma verdict_independent_of_chunking_witness :
  error (call "http" (Some 0) (map Receive [chunk 2; chunk 1])) = None
  <-> error (call "http" (Some 0) (map Receive [bare; small; bare])) = None.
Proof.
  apply (verdict_independent_of_chunking 0 [chunk 2; chunk 1]
           [bare; small; bare]).
  - discriminate.
  - repeat constructor.
  - repeat constructor.
  - reflexivity.
Defined.

(** X5. The counter outlives a change of the setting: when the limit is
    lowered to a ceiling below what has been counted so far, the next
    [http.request] event raises the 413, even with an empty body, and
    nothing after it is read. *)
Theorem lowered_limit_rejects_next_chunk (setting : option Z)
    (pre : list Event) (limit : Z) (m : Message) (rest : list Event) :
  error (call "http" setting pre) = None ->
  limit * MB < received (final (call "http" setting pre)) ->
  is_http_request m = true ->
  let t :=
    call "http" setting (pre ++ Reconfigure (Some limit) :: Receive m :: rest)
  in
  forwarded t = forwarded (call "http" setting pre)
  /\ (exists exn, error t = Some exn /\ status_code exn = 413)
  /\ unread t = rest.
Proof.
  intros Hok Hover Hm t. subst t. rewrite !call_http in *.
  rewrite (run_app _ pre (Reconfigure (Some limit) :: Receive m :: rest) Hok).
  set (w := final (run (receive_wrapper setting) pre)) in *.
  pose proof (body_len_nonneg m) as Hlen.
  change (run w (Reconfigure (Some limit) :: Receive m :: rest))
    with (run (set_max_file_size_upload w (Some limit)) (Receive m :: rest)).
  rewrite (run_receive_raise _ _ _ _ _
             (inner_exceeds (set_max_file_size_upload w (Some limit)) limit m
                Hm eq_refl ltac:(simpl; lia))).
  simpl. rewrite app_nil_r. repeat split. now eexists.
Qed.

Lemma lowered_limit_rejects_next_chunk_witness :
  forwarded
    (call "http" (Some 1)
       ([Receive small] ++ Reconfigure (Some 0) :: Receive bare :: [])) =
    forwarded (call "http" (Some 1) [Receive small])
  /\ (exists exn,
        error
          (call "http" (Some 1)
             ([Receive small] ++ Reconfigure (Some 0) :: Receive bare :: []))
        = Some exn
        /\ status_code exn = 413)
  /\ unread
       (call "http" (Some 1)
          ([Receive small] ++ Reconfigure (Some 0) :: Receive bare :: []))
     = [].
Proof.
  apply (lowered_limit_rejects_next_chunk (Some 1) [Receive small] 0 bare []).
  - reflexivity.
  - reflexivity.
  - reflexivity.
Defined.

(** X6. The guard does not reset after it has raised: if the application
    swallows the exception and reads on under the same setting, every
    further [http.request] event raises the 413 again. *)
Theorem raise_is_sticky (w w' : World) (m : Message) (exn : HTTPException) :
  inner w m = (w', Raise exn) ->
  forall m' : Message,
    is_http_request m' = true ->
    exists exn',
      snd (inner w' m') = Raise exn' /\ status_code exn' = 413.
Proof.
  intros Hraise m' Hm'.
  destruct (inner_cases w m)
    as [(w1 & Hret & _) | (limit & Hm & Hmax & Hlt & Hexc)];
    [congruence|].
  rewrite Hexc in Hraise. inversion Hraise; subst.
  pose proof (body_len_nonneg m') as Hlen.
  rewrite (inner_exceeds (set_received w (received w + body_len m)) limit m'
             Hm' Hmax ltac:(simpl; lia)).
  simpl. now eexists.
Qed.

Lemma raise_is_sticky_witness :
  exists exn',
    snd (inner {| max_file_size_upload := Some 0; received := 3 |} bare)
    = Raise exn'
    /\ status_code exn' = 413.
Proof.
  apply (raise_is_sticky
           {| max_file_size_upload := Some 0; received := 0 |}
           {| max_file_size_upload := Some 0; received := 3 |}
           small
           (MaxFileSizeException (size_limit_msg 0 3))).
  - reflexivity.
  - reflexivity.
Defined.

(** X7. A negative setting is not a way to lift the limit: the first
    [http.request] event raises the 413, whatever its body, and nothing is
    handed on. *)
Theorem negative_limit_rejects_everything (limit : Z) (m : Message)
    (rest : list Event) :
  limit < 0 ->
  is_http_request m = true ->
  call "http" (Some limit) (Receive m :: rest) =
    {| forwarded := [];
       error :=
         Some {| status_code := 413;
                 detail := size_limit_msg limit (body_len m) |};
       unread := rest;
       final := {| max_file_size_upload := Some limit;
                   received := body_len m |} |}.
Proof.
  intros Hneg Hm. rewrite call_http.
  pose proof (body_len_nonneg m) as Hlen.
  rewrite (run_receive_raise _ _ _ _ _
             (inner_exceeds (receive_wrapper (Some limit)) limit m Hm eq_refl
                ltac:(simpl; unfold MB; lia))).
  reflexivity.
Qed.

Lemma negative_limit_rejects_everything_witness :
  call "http" (Some (-1)) (Receive bare :: []) =
    {| forwarded := [];
       error :=
         Some {| status_code := 413;
                 detail := size_limit_msg (-1) (body_len bare) |};
       unread := [];
       final := {| max_file_size_upload := Some (-1);
                   received := body_len bare |} |}.
Proof.
  apply (negative_limit_rejects_everything (-1) bare []).
  - reflexivity.
  - reflexivity.
Defined.



(** X9. Over a request the counter starts at 0, never goes down, not even
    when the setting changes, and never exceeds the body bytes of the
    [http.request] events of the channel. *)
Theorem counter_bounds (setting : option Z) (events : list Event) :
  0 <= received (final (call "http" setting events))
  /\ received (final (call "http" setting events))
     <= body_bytes (messages events).
Proof.
  rewrite call_http.
  pose proof (run_counter_bounds events (receive_wrapper setting)) as H.
  simpl in H. exact H.
Qed.

(** * Further properties of the origin gate *)

Section GateEndToEnd.

Variable Response : Type.
Variable JSONResponse : Z -> list (string * string) -> Response.
Variable call_next : Request -> Response.

(** X14. A gate built by [__init__] lets every request through exactly when
    [ALLOWED_ORIGINS] is not set or holds nothing but commas and white
    space; any other text makes it turn some request away. *)
Theorem gate_open_iff_unconfigured (env : option string) :
  (forall request : Request,
      dispatch JSONResponse call_next (init env) request =
        (call_next request, [CallNext request]))
  <-> match env with
      | None => True
      | Some text => all_chars comma_or_space text = true
      end.
Proof.
  rewrite <- init_empty_iff. split.
  - intros Hopen.
    specialize (Hopen {| path := EmptyString; headers := [] |}).
    unfold dispatch in Hopen.
    destruct (allowed_origins (init env)) as [|first others] eqn:E;
      [reflexivity|].
    unfold _is_origin_allowed in Hopen. simpl in Hopen.
    inversion Hopen.
  - intros Hnil request. unfold dispatch. now rewrite Hnil.
Qed.

(** X15. A request without a usable [Origin] header (absent or empty) is let
    through on the strength of its [Referer] header, whenever that value
    begins with an entry of the configured allow-list. *)
Theorem referer_under_entry_forwarded (env : option string)
    (request : Request) (allowed rest : string) :
  In allowed (allowed_origins (init env)) ->
  headers_get "origin" (headers request) = None
  \/ headers_get "origin" (headers request) = Some EmptyString ->
  headers_get "referer" (headers request) = Some (allowed ++ rest) ->
  dispatch JSONResponse call_next (init env) request =
    (call_next request, [CallNext request]).
Proof.
  intros Hin Horigin Hreferer.
  assert (Hvalue : request_origin request = allowed ++ rest).
  { unfold request_origin, headers_get_default. rewrite Hreferer.
    destruct Horigin as [-> | ->]; reflexivity. }
  assert (Hallowed : _is_origin_allowed (init env) (allowed ++ rest) = true).
  { apply is_origin_allowed_iff. split.
    - pose proof (init_entries_nonempty env allowed Hin) as Hne.
      destruct allowed; [congruence | discriminate].
    - exists allowed. split; [assumption|].
      apply prefix_iff_app. now exists rest. }
  unfold dispatch. destruct (allowed_origins (init env)); [reflexivity|].
  destruct (Py.any _ (bypass_paths (init env))); [reflexivity|].
  rewrite Hvalue, Hallowed. reflexivity.
Qed.

(** X16. A non-empty [Origin] header decides alone: when its value is not
    allowed, an enabled gate turns the request away on a path outside the
    bypass prefixes, whatever the [Referer] header says, and the warning
    names the [Origin] value. *)
Theorem origin_takes_precedence (env : option string) (request : Request)
    (value : string) :
  allowed_origins (init env) <> [] ->
  (forall p, In p ["/health"; "/docs"; "/openapi.json"] ->
             Py.startswith (path request) p = false) ->
  headers_get "origin" (headers request) = Some value ->
  value <> EmptyString ->
  _is_origin_allowed (init env) value = false ->
  dispatch JSONResponse call_next (init env) request =
    (JSONResponse 401 [("detail", "Direct access not allowed")],
     [LogWarning ("🚫 Blocked direct access from: " ++ value)]).
Proof.
  intros Hne Hpath Horigin Hvalue Hrejected.
  assert (Hextract : request_origin request = value).
  { unfold request_origin. rewrite Horigin. simpl.
    apply truthy_true in Hvalue. now rewrite Hvalue. }
  assert (Hbypass :
            Py.any (fun p => Py.startswith (path request) p)
              (bypass_paths (init env)) = false)
    by now apply any_false.
  unfold dispatch. destruct (allowed_origins (init env)); [congruence|].
  rewrite Hbypass, Hextract, Hrejected. simpl.
  unfold blocked_msg. simpl.
  apply truthy_true in Hvalue. now rewrite Hvalue.
Qed.

End GateEndToEnd.

Lemma gate_open_iff_unconfigured_witness :
  dispatch plain_json echo_next (init (Some " , ")) empty_origin_request =
    (echo_next empty_origin_request, [CallNext empty_origin_request]).
Proof.
  apply (proj2 (gate_open_iff_unconfigured _ plain_json echo_next
                  (Some " , "))).
  reflexivity.
Defined.

Lemma referer_under_entry_forwarded_witness :
  dispatch plain_json echo_next (init (Some "https://example.com"))
    empty_origin_request
  = (echo_next empty_origin_request, [CallNext empty_origin_request]).
Proof.
  apply (referer_under_entry_forwarded _ plain_json echo_next
           (Some "https://example.com") empty_origin_request
           "https://example.com" "/app").
  - now left.
  - now right.
  - reflexivity.
Defined.

Lemma origin_takes_precedence_witness :
  dispatch plain_json echo_next (init (Some "https://example.com"))
    {| path := "/api/x";
       headers := [("origin", "https://evil.com");
                   ("referer", "https://example.com/app")] |}
  = (plain_json 401 [("detail", "Direct access not allowed")],
     [LogWarning ("🚫 Blocked direct access from: " ++ "https://evil.com")]).
Proof.
  apply (origin_takes_precedence _ plain_json echo_next
           (Some "https://example.com")
           {| path := "/api/x";
              headers := [("origin", "https://evil.com");
                          ("referer", "https://example.com/app")] |}
           "https://evil.com").
  - discriminate.
  - intros p [<- | [<- | [<- | []]]]; reflexivity.
  - reflexivity.
  - discriminate.
  - reflexivity.
Defined.
